(** * wolff-lang: the lexer (src/lex.cpp) and the recursive-descent parser
      (src/parser.cpp), embedded as pure functions over an explicit lexer state.

    The C++ code keeps two pieces of process-wide state: the standard input
    cursor read by [getchar] and the global variable [token].  Both are threaded
    explicitly here as the record [lexer]. *)

From Stdlib Require Import ZArith List Ascii String Bool Lia.
Import ListNotations.
Local Open Scope Z_scope.

(** ** Characters

    [getchar] hands a character back as an [int] holding its unsigned code, and
    the C++ character literals are [int]-promoted in every comparison the code
    makes; [chr c] is that integer. *)
Definition chr (c : ascii) : Z := Z.of_nat (nat_of_ascii c).
Arguments chr c%_char.

(** The [EOF] of <stdio.h>: a negative [int]. *)
Definition EOF : Z := -1.

(** [getchar()]: the next character of standard input, or [EOF] once the
    input is exhausted (the cursor then stays where it is). *)
Definition getchar (inp : list ascii) : Z * list ascii :=
  match inp with
  | [] => (EOF, [])
  | c :: rest => (chr c, rest)
  end.

(** lex.cpp, [isWhitespace]: the switch over newline, space and tab. *)
Definition isWhitespace (ch : Z) : bool :=
  if ch =? chr "010" then true
  else if ch =? chr " " then true
  else if ch =? chr "009" then true
  else false.

(** ** Tokens

    Modelled from the spec: lex.hpp, which declares [tokenType] and the class
    constants [DIGIT] and [EoF], is not among the sources.  Following the
    spec's data model a token carries a class tag and the raw character; the
    tag is integer valued, as lex.cpp stores [ch] in it and parser.cpp compares
    it with character literals. *)
Record tokenType : Type := mkToken { classType : Z; repr : Z }.

(** The state the lexer owns: the global [token] (the one token of lookahead)
    and what is left to read of standard input. *)
Record lexer : Type := mkLexer { token : tokenType; stdin : list ascii }.

(** ** AST (parser.hpp)

    [struct Expression] is a tagged record: [type] is the character D for a
    digit leaf (only [value] is set) and P for a parenthesized node (only
    [left], [op] and [right] are set).  [Operator] is a typedef of [int]. *)
Definition Operator : Type := Z.

Inductive Expression : Type :=
| Digit (value : Z)
| Parenthesized (left : Expression) (op : Operator) (right : Expression).

(** ** Outcomes of a parsing function

    parser.cpp returns 1 (with its out-parameter filled in) or 0, and calls
    [Error] on a malformed parenthesized expression.  Modelled from the spec:
    error.hpp is not among the sources; [Error] is the fatal, non-recoverable
    fault of the spec, carrying its message, and never returns. *)
Inductive outcome (A : Type) : Type :=
| Matched (a : A)
| NoMatch
| Fatal (msg : string)
| OutOfFuel.
Arguments Matched {A} a.
Arguments NoMatch {A}.
Arguments Fatal {A} msg.
Arguments OutOfFuel {A}.

(** The [int] a parsing function hands back, when it returns at all. *)
Definition returned {A : Type} (o : outcome A) : option Z :=
  match o with
  | Matched _ => Some 1
  | NoMatch => Some 0
  | Fatal _ | OutOfFuel => None
  end.

(** A parsing function reads and advances the lexer. *)
Definition parser (A : Type) : Type := lexer -> outcome A * lexer.

Definition andThen {A B : Type} (p : parser A) (k : A -> parser B) : parser B :=
  fun s =>
    match p s with
    | (Matched a, s') => k a s'
    | (NoMatch, s') => (NoMatch, s')
    | (Fatal msg, s') => (Fatal msg, s')
    | (OutOfFuel, s') => (OutOfFuel, s')
    end.

Notation "x <- p ;; k" := (andThen p (fun x => k))
  (at level 61, p at next level, right associativity).

(** [if (!p(...)) Error(msg);] *)
Definition orError {A : Type} (p : parser A) (msg : string) : parser A :=
  fun s =>
    match p s with
    | (NoMatch, s') => (Fatal msg, s')
    | r => r
    end.

(** ** main.cpp: the interactive shell

    [processInput] and [startInteractiveShell] talk to the console through
    [cout] and [getline(cin, expr)].  The console is modelled by what the code
    observes of it: [lines i] is the content of [expr] after the call number
    [i] of [getline] (from 0), [reads] counts the calls made and [cout]
    collects what has been written. *)
Record console : Type := mkConsole { reads : nat; cout : list string }.

(** [cout << str] *)
Definition put (str : string) (c : console) : console :=
  {| reads := reads c; cout := cout c ++ [str] |}.

(** [getline(cin, expr)]: the new content of [expr]. *)
Definition getline (lines : nat -> string) (c : console) : string * console :=
  (lines (reads c), {| reads := S (reads c); cout := cout c |}).

(** main.cpp, [processInput]: prompt, read a line, return 0 when it is the
    word exit, otherwise go round again.  The loop condition is [true]; the
    [return 1] after the loop has no path to it.  [None] is an exhausted
    [fuel]. *)
Fixpoint processInput (fuel : nat) (lines : nat -> string) (c : console)
  : option (Z * console) :=
  match fuel with
  | O => None
  | S fuel' =>
      let c1 := put ":>" c in
      let (expr, c2) := getline lines c1 in
      if String.eqb expr "exit" then Some (0, c2)
      else processInput fuel' lines c2
  end.

(** How a function of main.cpp hands control back: by returning, or by
    ending the process with [exit(status)]. *)
Inductive finish : Type :=
| Returned
| Exited (status : Z).

Definition newline : string := String "010"%char EmptyString.

(** main.cpp, [startInteractiveShell]: the two banner lines, then
    [if (processInput() == 0) exit(0);]. *)
Definition startInteractiveShell (fuel : nat) (lines : nat -> string) (c : console)
  : option (finish * console) :=
  let c1 := put (String.append "Dharma interpretor (v0.1 alpha)" newline) c in
  let c2 := put (String.append "by Fluturel Adrian, 2018" newline) c1 in
  match processInput fuel lines c2 with
  | None => None
  | Some (r, c3) => if r =? 0 then Some (Exited 0, c3) else Some (Returned, c3)
  end.

Section Wolff.

(** The two class constants of the missing lex.hpp.  Whatever the header
    gives them, the functions below are the code of lex.cpp and parser.cpp;
    the theorems say which of them they need to be apart from the character
    classes. *)
Variables DIGIT EoF : Z.

(** lex.cpp, [getNextToken]: the do-while loop reads characters until one is
    not whitespace; end of input inside the loop stores the [EoF] token and
    returns.  After the loop the character is classified.  The recursion is
    on the input left to read; [getNextToken_loop_unfold] below restates one
    iteration through [getchar], as the source has it. *)
Definition classify (ch : Z) : tokenType :=
  {| classType := if (chr "0" <=? ch) && (ch <=? chr "9") then DIGIT else ch;
     repr := ch |}.

Fixpoint getNextToken_loop (inp : list ascii) : tokenType * list ascii :=
  match inp with
  | [] => ({| classType := EoF; repr := chr "#" |}, [])
  | c :: rest =>
      let ch := chr c in
      if ch <? 0 then ({| classType := EoF; repr := chr "#" |}, rest)
      else if isWhitespace ch then getNextToken_loop rest
      else (classify ch, rest)
  end.

Definition getNextToken (s : lexer) : lexer :=
  let (t, rest) := getNextToken_loop (stdin s) in
  {| token := t; stdin := rest |}.

(** The tokens the next [n] calls of [getNextToken] store, in order. *)
Fixpoint lex_tokens (n : nat) (s : lexer) : list tokenType :=
  match n with
  | O => []
  | S n' => let s' := getNextToken s in token s' :: lex_tokens n' s'
  end.

(** parser.cpp, [parseOperator]. *)
Definition parseOperator : parser Operator :=
  fun s =>
    if classType (token s) =? chr "+" then (Matched (chr "+"), getNextToken s)
    else if classType (token s) =? chr "*" then (Matched (chr "*"), getNextToken s)
    else (NoMatch, s).

(** [token.classType = DIGIT]: the assignment of parser.cpp line 35. *)
Definition assign_classType (v : Z) (s : lexer) : lexer :=
  {| token := {| classType := v; repr := repr (token s) |}; stdin := stdin s |}.

(** [if (token.classType != ')') Error(...); getNextToken(); return 1;] *)
Definition closeParen (e : Expression) : parser Expression :=
  fun s =>
    if classType (token s) =? chr ")" then (Matched e, getNextToken s)
    else (Fatal "Missing right paranthesis", s).

(** parser.cpp, [parseExpression].  The condition of the first [if] is an
    assignment: it stores [DIGIT] in the current token and the branch is taken
    when the stored value is nonzero.  The recursion is bounded by [fuel]. *)
Fixpoint parseExpression (fuel : nat) : parser Expression :=
  fun s =>
    match fuel with
    | O => (OutOfFuel, s)
    | S fuel' =>
        let s1 := assign_classType DIGIT s in
        if negb (classType (token s1) =? 0) then
          (Matched (Digit (repr (token s1) - chr "0")), getNextToken s1)
        else if classType (token s1) =? chr "(" then
          (l <- orError (parseExpression fuel') "Missing expression" ;;
           o <- orError parseOperator "Missing operator" ;;
           r <- orError (parseExpression fuel') "Missing expression" ;;
           closeParen (Parenthesized l o r)) (getNextToken s1)
        else (NoMatch, s1)
    end.

(** Every [Digit] leaf of an AST holds a value in 0..9. *)
Fixpoint digits_in_range (e : Expression) : Prop :=
  match e with
  | Digit v => 0 <= v <= 9
  | Parenthesized l _ r => digits_in_range l /\ digits_in_range r
  end.


(** The lexer as [parseExpression] finds it on a given input: the lookahead
    has been loaded by one call of [getNextToken] from the start of the
    stream (the token slot held [t] before). *)
Definition lexer_on (t : tokenType) (input : string) : lexer :=
  getNextToken {| token := t; stdin := list_ascii_of_string input |}.

(** The whitespace set of the lexer, as characters. *)
Definition whitespace_char (c : ascii) : Prop :=
  c = " "%char \/ c = "009"%char \/ c = "010"%char.

(** The token stored at the end of the input. *)
Definition eof_token : tokenType := {| classType := EoF; repr := chr "#" |}.

(** The characters of an input that [isWhitespace] does not skip. *)
Definition significant (inp : list ascii) : list ascii :=
  filter (fun c => negb (isWhitespace (chr c))) inp.

(** The three shapes of a token that [getNextToken] stores: the end-of-input
    token, a digit under class [DIGIT], or any other character, which is not
    whitespace, under its own code. *)
Definition token_ok (t : tokenType) : Prop :=
  t = eof_token \/
  (classType t = DIGIT /\ chr "0" <= repr t <= chr "9") \/
  (classType t = repr t /\ 0 <= repr t <= 255 /\
   ~ (chr "0" <= repr t <= chr "9") /\ isWhitespace (repr t) = false).

(** ** Characters and whitespace *)

Lemma chr_range (c : ascii) : 0 <= chr c <= 255.
Proof.
  unfold chr. pose proof (nat_ascii_bounded c). lia.
Qed.

Lemma chr_inj (c d : ascii) : chr c = chr d -> c = d.
Proof.
  unfold chr. intros H. apply Nat2Z.inj in H.
  rewrite <- (ascii_nat_embedding c), <- (ascii_nat_embedding d).
  now rewrite H.
Qed.

Lemma isWhitespace_iff (c : ascii) :
  isWhitespace (chr c) = true <-> whitespace_char c.
Proof.
  unfold isWhitespace, whitespace_char. split.
  - destruct (chr c =? chr "010") eqn:En; [apply Z.eqb_eq, chr_inj in En; auto|].
    destruct (chr c =? chr " ") eqn:Es; [apply Z.eqb_eq, chr_inj in Es; auto|].
    destruct (chr c =? chr "009") eqn:Et; [apply Z.eqb_eq, chr_inj in Et; auto|].
    discriminate.
  - intros [-> | [-> | ->]]; reflexivity.
Qed.

Lemma isWhitespace_false_iff (c : ascii) :
  isWhitespace (chr c) = false <-> ~ whitespace_char c.
Proof.
  rewrite <- isWhitespace_iff. destruct (isWhitespace (chr c)); split; congruence.
Qed.

(** ** The lexer *)

(** One iteration of the do-while loop of [getNextToken], through [getchar]. *)
Lemma getNextToken_loop_unfold (inp : list ascii) :
  getNextToken_loop inp =
    let (ch, rest) := getchar inp in
    if ch <? 0 then ({| classType := EoF; repr := chr "#" |}, rest)
    else if isWhitespace ch then getNextToken_loop rest
    else (classify ch, rest).
Proof.
  destruct inp; reflexivity.
Qed.

Lemma getNextToken_loop_whitespace (ws rest : list ascii) :
  Forall whitespace_char ws ->
  getNextToken_loop (ws ++ rest) = getNextToken_loop rest.
Proof.
  induction 1 as [|c ws Hc _ IH]; [reflexivity|].
  cbn [app getNextToken_loop].
  destruct (Z.ltb_spec (chr c) 0) as [Hneg|_].
  - pose proof (chr_range c). lia.
  - apply isWhitespace_iff in Hc. now rewrite Hc.
Qed.

Lemma getNextToken_loop_char (c : ascii) (rest : list ascii) :
  ~ whitespace_char c ->
  getNextToken_loop (c :: rest) = (classify (chr c), rest).
Proof.
  intros Hc. cbn [getNextToken_loop].
  destruct (Z.ltb_spec (chr c) 0) as [Hneg|_].
  - pose proof (chr_range c). lia.
  - apply isWhitespace_false_iff in Hc. now rewrite Hc.
Qed.

(** Every input is a run of whitespace followed by nothing or by a
    character that is not whitespace. *)
Lemma whitespace_prefix (inp : list ascii) :
  exists ws rest,
    inp = ws ++ rest /\ Forall whitespace_char ws /\
    match rest with [] => True | c :: _ => ~ whitespace_char c end.
Proof.
  induction inp as [|c inp (ws & rest & -> & Hws & Hrest)].
  - exists [], []. now repeat split.
  - destruct (isWhitespace (chr c)) eqn:E.
    + exists (c :: ws), rest. repeat split; [|assumption].
      constructor; [now apply isWhitespace_iff | assumption].
    + exists [], (c :: ws ++ rest). repeat split; [constructor|].
      now apply isWhitespace_false_iff.
Qed.

(** The token a call stores and the input it leaves depend on the input
    only, not on the token that was current before. *)
Lemma getNextToken_stdin_only (s1 s2 : lexer) :
  stdin s1 = stdin s2 -> getNextToken s1 = getNextToken s2.
Proof.
  unfold getNextToken. now intros ->.
Qed.

(** What a call stores is either the end-of-input token, with nothing left
    to read, or the class of a character. *)
Lemma getNextToken_loop_cases (inp : list ascii) :
  getNextToken_loop inp = ({| classType := EoF; repr := chr "#" |}, []) \/
  exists c rest, getNextToken_loop inp = (classify (chr c), rest).
Proof.
  induction inp as [|c inp IH]; [now left|].
  cbn [getNextToken_loop].
  destruct (Z.ltb_spec (chr c) 0) as [Hneg|_].
  - pose proof (chr_range c). lia.
  - destruct (isWhitespace (chr c)); [exact IH|]. right. now exists c, inp.
Qed.

Lemma classify_class (ch : Z) :
  classType (classify ch) = DIGIT \/ classType (classify ch) = ch.
Proof.
  unfold classify. cbn. destruct (_ && _); auto.
Qed.

(** C6. One call of [getNextToken] skips every leading space, tab and
    newline; then, if the input is exhausted, it stores class [EoF] with repr
    the hash character; if the first other character is one of 0..9 it stores
    class [DIGIT] with that character as repr; otherwise the class and the
    repr are both the character itself.  The input left is what follows the
    classified character. *)
Theorem getNextToken_skips_then_classifies (t : tokenType) (ws rest : list ascii) :
  Forall whitespace_char ws ->
  (rest = [] ->
     getNextToken {| token := t; stdin := ws ++ rest |}
     = {| token := {| classType := EoF; repr := chr "#" |}; stdin := [] |}) /\
  (forall c rest', rest = c :: rest' -> ~ whitespace_char c ->
     (chr "0" <= chr c <= chr "9" ->
        getNextToken {| token := t; stdin := ws ++ rest |}
        = {| token := {| classType := DIGIT; repr := chr c |}; stdin := rest' |}) /\
     (~ (chr "0" <= chr c <= chr "9") ->
        getNextToken {| token := t; stdin := ws ++ rest |}
        = {| token := {| classType := chr c; repr := chr c |}; stdin := rest' |})).
Proof.
  intros Hws. unfold getNextToken. cbn [stdin].
  rewrite (getNextToken_loop_whitespace ws rest Hws). split.
  - now intros ->.
  - intros c rest' -> Hc. rewrite (getNextToken_loop_char c rest' Hc).
    unfold classify. split; intros Hd.
    + destruct (Z.leb_spec (chr "0") (chr c)), (Z.leb_spec (chr c) (chr "9"));
        cbn [andb]; solve [reflexivity | lia].
    + destruct (Z.leb_spec (chr "0") (chr c)), (Z.leb_spec (chr c) (chr "9"));
        cbn [andb]; solve [reflexivity | lia].
Qed.

(** C9. The lexer is deterministic and keeps no hidden state: over the
    same input from the same position, the tokens stored by any number of
    successive calls are the same, whatever the token slot held before. *)
Theorem lex_tokens_deterministic (n : nat) (inp : list ascii) (t1 t2 : tokenType) :
  lex_tokens n {| token := t1; stdin := inp |}
  = lex_tokens n {| token := t2; stdin := inp |}.
Proof.
  destruct n as [|n]; [reflexivity|].
  cbn [lex_tokens].
  now rewrite (getNextToken_stdin_only {| token := t1; stdin := inp |}
                                       {| token := t2; stdin := inp |} eq_refl).
Qed.

(** Once the input is exhausted a call stores the end-of-input token and
    the input stays exhausted. *)
Lemma getNextToken_exhausted (t : tokenType) :
  getNextToken {| token := t; stdin := [] |}
  = {| token := {| classType := EoF; repr := chr "#" |}; stdin := [] |}.
Proof.
  reflexivity.
Qed.

(** When [EoF] is no character class, class [EoF] is stored at the end of
    the input only. *)
Lemma getNextToken_EoF_inv (s : lexer) :
  ~ (0 <= EoF <= 255) -> EoF <> DIGIT ->
  classType (token (getNextToken s)) = EoF ->
  getNextToken s = {| token := {| classType := EoF; repr := chr "#" |}; stdin := [] |}.
Proof.
  intros Hchar Hdigit. unfold getNextToken.
  destruct (getNextToken_loop_cases (stdin s)) as [-> | (c & rest & ->)];
    [reflexivity|].
  cbn [token]. intros Hclass. exfalso.
  pose proof (chr_range c).
  destruct (classify_class (chr c)) as [E | E]; rewrite E in Hclass; lia.
Qed.

(** C10. End of input is absorbing.  With [EoF] distinct from [DIGIT] and
    from every character class, once a call has stored class [EoF], the state
    after any number of further calls holds the token of class [EoF] and repr
    the hash character, and the input position is the one that call left. *)
Theorem EoF_absorbing (s : lexer) (k : nat) :
  ~ (0 <= EoF <= 255) -> EoF <> DIGIT ->
  classType (token (getNextToken s)) = EoF ->
  token (Nat.iter k getNextToken (getNextToken s))
  = {| classType := EoF; repr := chr "#" |} /\
  stdin (Nat.iter k getNextToken (getNextToken s)) = stdin (getNextToken s).
Proof.
  intros Hchar Hdigit Hclass.
  rewrite (getNextToken_EoF_inv s Hchar Hdigit Hclass).
  induction k as [|k [IHt IHs]]; [now split|].
  rewrite !Nat.iter_succ.
  destruct (Nat.iter k getNextToken _) as [tk ik] eqn:Ek.
  cbn [token stdin] in IHt, IHs. subst ik.
  rewrite getNextToken_exhausted. now split.
Qed.

(** ** The parser *)

(** C7. [parseOperator] matches exactly when the current token has class
    plus or star; it then returns that operator and advances the lexer by one
    token.  On any other class it returns no match and the lexer (current
    token and input position) is unchanged. *)
Theorem parseOperator_frame (s : lexer) :
  let c := classType (token s) in
  ((exists o, fst (parseOperator s) = Matched o) <-> c = chr "+" \/ c = chr "*") /\
  (c = chr "+" \/ c = chr "*" -> parseOperator s = (Matched c, getNextToken s)) /\
  (~ (c = chr "+" \/ c = chr "*") -> parseOperator s = (NoMatch, s)).
Proof.
  cbv zeta. unfold parseOperator.
  destruct (Z.eqb_spec (classType (token s)) (chr "+")) as [Ep | Np].
  - rewrite Ep. split; [|split].
    + split; [auto | intros _; now exists (chr "+")].
    + reflexivity.
    + intros Hn. exfalso. apply Hn. now left.
  - destruct (Z.eqb_spec (classType (token s)) (chr "*")) as [Es | Ns].
    + rewrite Es. split; [|split].
      * split; [auto | intros _; now exists (chr "*")].
      * reflexivity.
      * intros Hn. exfalso. apply Hn. now right.
    + split; [|split].
      * split; [intros [o Ho]; discriminate Ho | tauto].
      * tauto.
      * reflexivity.
Qed.

(** What the first condition of [parseExpression] decides.  The assignment
    stores [DIGIT], so the current token plays no part: a nonzero [DIGIT] takes
    the digit branch, and a zero [DIGIT] fails the comparison with the opening
    parenthesis as well.  The parenthesized branch is entered in neither case. *)
Lemma parseExpression_first_condition (fuel : nat) (s : lexer) :
  parseExpression (S fuel) s
  = if DIGIT =? 0 then (NoMatch, assign_classType DIGIT s)
    else (Matched (Digit (repr (token s) - chr "0")), getNextToken s).
Proof.
  cbn [parseExpression assign_classType token classType repr].
  destruct (Z.eqb_spec DIGIT 0) as [E | _]; cbn [negb]; [|reflexivity].
  replace (DIGIT =? chr "(") with false by (rewrite E; reflexivity).
  reflexivity.
Qed.

(** The first branch of [parseExpression] whenever [DIGIT] is nonzero: the
    assignment makes the condition true for every current token. *)
Lemma parseExpression_digit_branch (fuel : nat) (s : lexer) :
  DIGIT <> 0 ->
  parseExpression (S fuel) s
  = (Matched (Digit (repr (token s) - chr "0")), getNextToken s).
Proof.
  intros Hnz. rewrite parseExpression_first_condition.
  destruct (Z.eqb_spec DIGIT 0) as [E | _]; [contradiction | reflexivity].
Qed.

(** Whatever [DIGIT] is, [parseExpression] builds no parenthesized node and
    raises no fatal error. *)
Lemma parseExpression_never_parenthesized (fuel : nat) (s : lexer) :
  (forall l o r, fst (parseExpression fuel s) <> Matched (Parenthesized l o r)) /\
  (forall msg, fst (parseExpression fuel s) <> Fatal msg).
Proof.
  destruct fuel as [|fuel]; [split; discriminate|].
  rewrite parseExpression_first_condition.
  destruct (DIGIT =? 0); split; discriminate.
Qed.

(** C2. With a nonzero [DIGIT], whatever the current token (any class,
    [EoF] included), [parseExpression] returns 1 with a [Digit] node; it never
    returns 0 and never reaches a fatal error. *)
Theorem parseExpression_always_matches (s : lexer) :
  DIGIT <> 0 ->
  (forall fuel, exists e s', parseExpression (S fuel) s = (Matched e, s')) /\
  (forall fuel, returned (fst (parseExpression (S fuel) s)) = Some 1) /\
  (forall fuel, fst (parseExpression fuel s) <> NoMatch) /\
  (forall fuel msg, fst (parseExpression fuel s) <> Fatal msg).
Proof.
  intros Hnz. repeat split.
  - intros fuel. rewrite (parseExpression_digit_branch fuel s Hnz). eauto.
  - intros fuel. now rewrite (parseExpression_digit_branch fuel s Hnz).
  - intros [|fuel]; [discriminate|].
    now rewrite (parseExpression_digit_branch fuel s Hnz).
  - intros [|fuel] msg; [discriminate|].
    now rewrite (parseExpression_digit_branch fuel s Hnz).
Qed.

(** ** What the assignment in the first condition does to the grammar

    The theorems below run [parseExpression] on inputs of the spec.  They all
    come from the one defect that [parseExpression_digit_branch] states: the
    condition of parser.cpp line 35 assigns where line 42 compares. *)

(** C1. The digit branch is taken although the current token is not of
    class [DIGIT]: on an opening parenthesis, with [DIGIT] no character class,
    [parseExpression] returns 1 with a [Digit] node of value -8, the code of
    the parenthesis minus the code of the character 0. *)
Theorem parseExpression_digit_branch_on_paren (fuel : nat) (rest : list ascii) :
  ~ (0 <= DIGIT <= 255) ->
  let s := {| token := {| classType := chr "("; repr := chr "(" |}; stdin := rest |} in
  classType (token s) <> DIGIT /\
  parseExpression (S fuel) s = (Matched (Digit (-8)), getNextToken s).
Proof.
  intros Hchar s. split.
  - cbn [s token classType]. pose proof (chr_range "("). lia.
  - rewrite parseExpression_digit_branch by lia. reflexivity.
Qed.

(** C3. On the well-formed input (2+3) no amount of fuel makes
    [parseExpression] return the parenthesized node with leaves 2 and 3,
    whatever [DIGIT] is; with a nonzero [DIGIT] it returns a [Digit] node of
    value -8 and leaves the digit 2 as current token. *)
Theorem parseExpression_on_2_plus_3 (fuel : nat) (t : tokenType) :
  fst (parseExpression fuel (lexer_on t "(2+3)"))
  <> Matched (Parenthesized (Digit 2) (chr "+") (Digit 3)) /\
  (DIGIT <> 0 ->
   parseExpression (S fuel) (lexer_on t "(2+3)")
   = (Matched (Digit (-8)),
      {| token := {| classType := DIGIT; repr := chr "2" |};
         stdin := list_ascii_of_string "+3)" |})).
Proof.
  split.
  - apply parseExpression_never_parenthesized.
  - intros Hnz. now rewrite parseExpression_digit_branch by assumption.
Qed.

(** C4. On the empty input the current token is the end-of-input token,
    and [parseExpression] returns 1 with a [Digit] node of value -13 (the code
    of the hash character minus the code of 0) instead of returning 0. *)
Theorem parseExpression_on_empty_input (fuel : nat) (t : tokenType) :
  DIGIT <> 0 ->
  token (lexer_on t "") = {| classType := EoF; repr := chr "#" |} /\
  parseExpression (S fuel) (lexer_on t "")
  = (Matched (Digit (-13)),
     {| token := {| classType := EoF; repr := chr "#" |}; stdin := [] |}) /\
  returned (fst (parseExpression (S fuel) (lexer_on t ""))) = Some 1.
Proof.
  intros Hnz. rewrite parseExpression_digit_branch by assumption.
  repeat split.
Qed.

(** C5. On the three malformed inputs of the spec, each with a piece
    missing after the opening parenthesis, [parseExpression] raises no fatal
    error, whatever [DIGIT] is; with a nonzero [DIGIT] it returns 1 with a
    [Digit] node of value -8. *)
Theorem parseExpression_no_fatal_error (fuel : nat) (t : tokenType) :
  (forall msg,
     fst (parseExpression fuel (lexer_on t "(3+)")) <> Fatal msg /\
     fst (parseExpression fuel (lexer_on t "(3 4)")) <> Fatal msg /\
     fst (parseExpression fuel (lexer_on t "(3+4")) <> Fatal msg) /\
  (DIGIT <> 0 ->
     fst (parseExpression (S fuel) (lexer_on t "(3+)")) = Matched (Digit (-8)) /\
     fst (parseExpression (S fuel) (lexer_on t "(3 4)")) = Matched (Digit (-8)) /\
     fst (parseExpression (S fuel) (lexer_on t "(3+4")) = Matched (Digit (-8))).
Proof.
  split.
  - intros msg. repeat split; apply parseExpression_never_parenthesized.
  - intros Hnz. rewrite !parseExpression_digit_branch by assumption.
    repeat split.
Qed.

(** C8. On an input that starts with an opening parenthesis the [Digit]
    node that [parseExpression] returns holds -8, outside 0..9. *)
Theorem parseExpression_digit_out_of_range (fuel : nat) (t : tokenType) :
  DIGIT <> 0 ->
  exists e s',
    parseExpression (S fuel) (lexer_on t "(2+3)") = (Matched e, s') /\
    ~ digits_in_range e.
Proof.
  intros Hnz. rewrite parseExpression_digit_branch by assumption.
  eexists. eexists. split; [reflexivity|].
  change (~ (0 <= -8 <= 9)). lia.
Qed.

(** ** More on the lexer: the token stream of an input *)

Lemma significant_cons (c : ascii) (inp : list ascii) :
  significant (c :: inp)
  = if isWhitespace (chr c) then significant inp else c :: significant inp.
Proof.
  unfold significant. cbn [filter]. now destruct (isWhitespace (chr c)).
Qed.

(** One run of the loop of [getNextToken] in terms of the significant
    characters: it classifies the first of them and leaves the others. *)
Lemma getNextToken_loop_significant (inp : list ascii) :
  match significant inp with
  | [] => getNextToken_loop inp = (eof_token, [])
  | c :: sig =>
      exists rest,
        getNextToken_loop inp = (classify (chr c), rest) /\ significant rest = sig
  end.
Proof.
  induction inp as [|c inp IH]; [reflexivity|].
  rewrite significant_cons. cbn [getNextToken_loop].
  destruct (Z.ltb_spec (chr c) 0) as [Hneg|_].
  - pose proof (chr_range c). lia.
  - destruct (isWhitespace (chr c)); [exact IH|]. now exists inp.
Qed.

(** The loop reads forward only, and reads something unless the input is
    exhausted. *)
Lemma getNextToken_loop_suffix (inp : list ascii) :
  exists consumed,
    inp = consumed ++ snd (getNextToken_loop inp) /\
    (inp <> [] -> consumed <> []).
Proof.
  induction inp as [|c inp (consumed & Hsplit & _)].
  - now exists [].
  - cbn [getNextToken_loop].
    destruct (Z.ltb_spec (chr c) 0) as [Hneg|_].
    + pose proof (chr_range c). lia.
    + destruct (isWhitespace (chr c)).
      * exists (c :: consumed). split; [|discriminate].
        cbn [app]. now rewrite <- Hsplit.
      * exists [c]. split; [reflexivity | discriminate].
Qed.

Lemma classify_ok (c : ascii) :
  isWhitespace (chr c) = false -> token_ok (classify (chr c)).
Proof.
  intros Hws. unfold token_ok, classify. cbn [classType repr]. right.
  pose proof (chr_range c).
  destruct (Z.leb_spec (chr "0") (chr c)), (Z.leb_spec (chr c) (chr "9"));
    cbn [andb]; [left | right ..]; repeat split; trivial; lia.
Qed.

Lemma getNextToken_token_ok (s : lexer) : token_ok (token (getNextToken s)).
Proof.
  unfold getNextToken.
  induction (stdin s) as [|c inp IH]; [now left|].
  cbn [getNextToken_loop].
  destruct (Z.ltb_spec (chr c) 0) as [Hneg|_].
  - pose proof (chr_range c). lia.
  - destruct (isWhitespace (chr c)) eqn:Hws; [exact IH|].
    cbn [token]. now apply classify_ok.
Qed.

(** X1. The tokens of [n] successive calls are the classes of the first
    [n] significant characters of the input, in order, followed by the
    end-of-input token once those are used up. *)
Theorem lex_tokens_significant (n : nat) (t : tokenType) (inp : list ascii) :
  lex_tokens n {| token := t; stdin := inp |}
  = firstn n (map (fun c => classify (chr c)) (significant inp))
    ++ repeat eof_token (n - List.length (significant inp)).
Proof.
  revert t inp. induction n as [|n IH]; intros t inp; [reflexivity|].
  cbn [lex_tokens]. unfold getNextToken. cbn [stdin].
  pose proof (getNextToken_loop_significant inp) as Hloop.
  destruct (significant inp) as [|c sig].
  - rewrite Hloop. cbn [token]. rewrite IH.
    cbn [significant filter map firstn length app Nat.sub repeat].
    now rewrite firstn_nil, Nat.sub_0_r.
  - destruct Hloop as (rest & -> & <-). cbn [token]. rewrite IH. reflexivity.
Qed.

(** X2. Whitespace is insignificant: two inputs with the same significant
    characters give the same tokens, call after call. *)
Theorem lex_tokens_whitespace_insensitive
    (n : nat) (t1 t2 : tokenType) (inp1 inp2 : list ascii) :
  significant inp1 = significant inp2 ->
  lex_tokens n {| token := t1; stdin := inp1 |}
  = lex_tokens n {| token := t2; stdin := inp2 |}.
Proof.
  revert t1 t2 inp1 inp2.
  induction n as [|n IH]; intros t1 t2 inp1 inp2 Hsig; [reflexivity|].
  cbn [lex_tokens]. unfold getNextToken. cbn [stdin].
  pose proof (getNextToken_loop_significant inp1) as H1.
  pose proof (getNextToken_loop_significant inp2) as H2.
  rewrite Hsig in H1. destruct (significant inp2) as [|c sig].
  - rewrite H1, H2. reflexivity.
  - destruct H1 as (rest1 & -> & Hs1), H2 as (rest2 & -> & Hs2).
    cbn [token]. f_equal. apply IH. congruence.
Qed.

(** X3. A call reads forward only: the input it leaves is a suffix of the
    input it found, and a proper one unless the input was exhausted. *)
Theorem getNextToken_reads_forward (s : lexer) :
  exists consumed,
    stdin s = consumed ++ stdin (getNextToken s) /\
    (stdin s <> [] -> consumed <> []) /\
    (List.length (stdin (getNextToken s)) <= List.length (stdin s))%nat.
Proof.
  destruct (getNextToken_loop_suffix (stdin s)) as (consumed & Hsplit & Hne).
  unfold getNextToken.
  destruct (getNextToken_loop (stdin s)) as [t rest]. cbn [snd stdin] in *.
  exists consumed. repeat split; trivial.
  rewrite Hsplit, length_app. lia.
Qed.

(** X4. Every token a call stores has one of the three shapes of
    [token_ok]; in particular its repr is never a whitespace character. *)
Theorem lex_tokens_ok (n : nat) (s : lexer) :
  Forall token_ok (lex_tokens n s) /\
  Forall (fun t => isWhitespace (repr t) = false) (lex_tokens n s).
Proof.
  revert s. induction n as [|n IH]; intros s; [split; constructor|].
  cbn [lex_tokens]. destruct (IH (getNextToken s)) as [IHok IHws].
  pose proof (getNextToken_token_ok s) as Hok.
  split; constructor; trivial.
  destruct Hok as [-> | [[_ Hd] | (_ & _ & _ & Hws)]]; trivial.
  unfold isWhitespace.
  change (chr "0") with 48 in Hd. change (chr "9") with 57 in Hd.
  change (chr "010") with 10. change (chr " ") with 32. change (chr "009") with 9.
  destruct (Z.eqb_spec (repr (token (getNextToken s))) 10); [lia|].
  destruct (Z.eqb_spec (repr (token (getNextToken s))) 32); [lia|].
  destruct (Z.eqb_spec (repr (token (getNextToken s))) 9); [lia|].
  reflexivity.
Qed.

(** X5. With [DIGIT] and [EoF] apart from each other and from the
    character codes, the class of the stored token tells its kind: it is
    [EoF] exactly when no significant character was left, and [DIGIT] exactly
    when the repr is one of the characters 0..9. *)
Theorem getNextToken_class_kind (s : lexer) :
  ~ (0 <= DIGIT <= 255) -> ~ (0 <= EoF <= 255) -> DIGIT <> EoF ->
  (classType (token (getNextToken s)) = EoF <-> significant (stdin s) = []) /\
  (classType (token (getNextToken s)) = DIGIT
   <-> chr "0" <= repr (token (getNextToken s)) <= chr "9").
Proof.
  intros HD HE Hne. unfold getNextToken.
  pose proof (getNextToken_loop_significant (stdin s)) as Hloop.
  destruct (significant (stdin s)) as [|c sig].
  - rewrite Hloop. cbn [token classType repr eof_token].
    change (chr "0") with 48. change (chr "9") with 57. change (chr "#") with 35.
    repeat split; intros; trivial; try congruence; lia.
  - destruct Hloop as (rest & -> & _). cbn [token]. unfold classify.
    cbn [classType repr]. pose proof (chr_range c).
    destruct (Z.leb_spec (chr "0") (chr c)), (Z.leb_spec (chr c) (chr "9"));
      cbn [andb]; repeat split; intros; trivial; try discriminate; lia.
Qed.

(** X6. Every input is exhausted: after one call more than it has
    significant characters, and after any further call, the current token is
    the end-of-input token and nothing is left to read. *)
Theorem getNextToken_exhausts (n : nat) (s : lexer) :
  (List.length (significant (stdin s)) <= n)%nat ->
  Nat.iter (S n) getNextToken s = {| token := eof_token; stdin := [] |}.
Proof.
  revert s. induction n as [|n IH]; intros s Hlen.
  - cbn [Nat.iter nat_rect]. unfold getNextToken.
    pose proof (getNextToken_loop_significant (stdin s)) as Hloop.
    destruct (significant (stdin s)) as [|c sig]; [now rewrite Hloop|].
    cbn [List.length] in Hlen. lia.
  - rewrite Nat.iter_succ_r. apply IH. unfold getNextToken.
    pose proof (getNextToken_loop_significant (stdin s)) as Hloop.
    destruct (significant (stdin s)) as [|c sig].
    + rewrite Hloop. cbn. lia.
    + destruct Hloop as (rest & -> & Hsig). cbn [stdin]. rewrite Hsig.
      cbn [List.length] in Hlen. lia.
Qed.

(** ** More on the parser *)

(** What [getNextToken] stores when the first significant character is a
    digit. *)
Lemma getNextToken_on_digit (t : tokenType) (ws : list ascii) (d : ascii)
    (rest : list ascii) :
  Forall whitespace_char ws -> chr "0" <= chr d <= chr "9" ->
  getNextToken {| token := t; stdin := ws ++ d :: rest |}
  = {| token := {| classType := DIGIT; repr := chr d |}; stdin := rest |}.
Proof.
  intros Hws Hd. unfold getNextToken. cbn [stdin].
  rewrite (getNextToken_loop_whitespace ws (d :: rest) Hws).
  rewrite getNextToken_loop_char.
  - unfold classify.
    destruct (Z.leb_spec (chr "0") (chr d)), (Z.leb_spec (chr d) (chr "9"));
      cbn [andb]; solve [reflexivity | lia].
  - change (chr "0") with 48 in Hd. change (chr "9") with 57 in Hd.
    intros [-> | [-> | ->]]; vm_compute in Hd; destruct Hd as [H1 H2];
      contradiction H1 + contradiction H2; reflexivity.
Qed.

(** X7. Lexer and parser together on a digit: when the first significant
    character of the input is one of 0..9 and [DIGIT] is nonzero,
    [parseExpression] returns the [Digit] node of that digit, a value in 0..9,
    and leaves the lexer loaded with the token that follows the digit. *)
Theorem parseExpression_digit_value (fuel : nat) (t : tokenType)
    (ws : list ascii) (d : ascii) (rest : list ascii) :
  DIGIT <> 0 -> Forall whitespace_char ws -> chr "0" <= chr d <= chr "9" ->
  parseExpression (S fuel) (getNextToken {| token := t; stdin := ws ++ d :: rest |})
  = (Matched (Digit (chr d - chr "0")),
     getNextToken {| token := t; stdin := rest |}) /\
  0 <= chr d - chr "0" <= 9.
Proof.
  intros Hnz Hws Hd. split.
  - rewrite (parseExpression_digit_branch fuel _ Hnz).
    rewrite (getNextToken_on_digit t ws d rest Hws Hd). cbn [token repr].
    f_equal.
  - change (chr "0") with 48 in *. change (chr "9") with 57 in Hd. lia.
Qed.

(** X8. With a nonzero [DIGIT], the node that [parseExpression] returns
    holds a value in 0..9 exactly when the repr of the token that was current
    is one of the characters 0..9. *)
Theorem parseExpression_in_range_iff (fuel : nat) (s s' : lexer) (e : Expression) :
  DIGIT <> 0 ->
  parseExpression (S fuel) s = (Matched e, s') ->
  (digits_in_range e <-> chr "0" <= repr (token s) <= chr "9").
Proof.
  intros Hnz Hrun. rewrite (parseExpression_digit_branch fuel s Hnz) in Hrun.
  injection Hrun as <- _. cbn [digits_in_range].
  change (chr "0") with 48. change (chr "9") with 57. lia.
Qed.

(** X9. [parseExpression] never calls itself: whatever the lexer state and
    the value of [DIGIT], one level of fuel gives the result that any larger
    amount gives, and that result is a return, not an exhausted budget. *)
Theorem parseExpression_no_recursion (fuel : nat) (s : lexer) :
  parseExpression (S fuel) s = parseExpression 1 s /\
  fst (parseExpression (S fuel) s) <> OutOfFuel /\
  returned (fst (parseExpression (S fuel) s)) <> None.
Proof.
  rewrite !parseExpression_first_condition.
  destruct (DIGIT =? 0); repeat split; discriminate.
Qed.

(** X10. What a call of [parseExpression] does to the lexer, whatever
    [DIGIT] is.  When it matches it has advanced by exactly one token and the
    node is the [Digit] leaf computed from the repr that was current.  When it
    does not match it has read nothing and kept the repr, but the class of the
    current token has been overwritten with [DIGIT], which is then 0.  It
    raises no fatal error. *)
Theorem parseExpression_frame (fuel : nat) (s s' : lexer) (o : outcome Expression) :
  parseExpression fuel s = (o, s') ->
  match o with
  | Matched e =>
      e = Digit (repr (token s) - chr "0") /\ s' = getNextToken s /\ DIGIT <> 0
  | NoMatch =>
      stdin s' = stdin s /\ repr (token s') = repr (token s) /\
      classType (token s') = 0 /\ DIGIT = 0
  | Fatal _ => False
  | OutOfFuel => fuel = 0%nat /\ s' = s
  end.
Proof.
  destruct fuel as [|fuel].
  - cbn [parseExpression]. intros [= <- <-]. now split.
  - rewrite parseExpression_first_condition.
    destruct (Z.eqb_spec DIGIT 0) as [E | N]; intros [= <- <-].
    + cbn [assign_classType stdin token repr classType]. now repeat split.
    + now repeat split.
Qed.

(** X11. Lexer and parser together on an operator: with [DIGIT] and [EoF]
    apart from the character codes, [parseOperator] on a freshly loaded lexer
    matches exactly when the first significant character of the input is a
    plus or a star, and the operator it returns is the code of that
    character. *)
Theorem parseOperator_on_input (t : tokenType) (inp : list ascii) :
  ~ (0 <= DIGIT <= 255) -> ~ (0 <= EoF <= 255) ->
  forall o,
    fst (parseOperator (getNextToken {| token := t; stdin := inp |})) = Matched o
    <-> exists c sig,
          significant inp = c :: sig /\ (c = "+"%char \/ c = "*"%char) /\ o = chr c.
Proof.
  intros HD HE o. unfold parseOperator, getNextToken. cbn [stdin].
  pose proof (getNextToken_loop_significant inp) as Hloop.
  destruct (significant inp) as [|c sig].
  - rewrite Hloop. cbn [token classType eof_token].
    change (chr "+") with 43. change (chr "*") with 42.
    destruct (Z.eqb_spec EoF 43); [lia|]. destruct (Z.eqb_spec EoF 42); [lia|].
    cbn [fst]. split; [discriminate | intros (c & sig & [=] & _)].
  - destruct Hloop as (rest & -> & _). cbn [token]. unfold classify.
    cbn [classType]. pose proof (chr_range c) as Hc.
    assert (Hplus : chr c = 43 <-> c = "+"%char)
      by (split; [intros H; now apply chr_inj | now intros ->]).
    assert (Hstar : chr c = 42 <-> c = "*"%char)
      by (split; [intros H; now apply chr_inj | now intros ->]).
    change (chr "0") with 48. change (chr "9") with 57.
    change (chr "+") with 43. change (chr "*") with 42.
    destruct (Z.leb_spec 48 (chr c)), (Z.leb_spec (chr c) 57); cbn [andb].
    1: { destruct (Z.eqb_spec DIGIT 43); [lia|].
         destruct (Z.eqb_spec DIGIT 42); [lia|]. cbn [fst].
         split; [discriminate|].
         intros (c' & sig' & [= <- _] & [Hc' | Hc'] & _);
           [apply Hplus in Hc' | apply Hstar in Hc']; lia. }
    all: destruct (Z.eqb_spec (chr c) 43) as [E43 | N43];
      [| destruct (Z.eqb_spec (chr c) 42) as [E42 | N42]]; cbn [fst].
    all: split;
      [ intros [= <-]; exists c, sig; repeat split; tauto || congruence
      | intros (c' & sig' & [= <- _] & [Hc' | Hc'] & ->);
        try (apply Hplus in Hc'); try (apply Hstar in Hc');
        first [congruence | now rewrite Hc' | exfalso; lia] ].
Qed.

End Wolff.

(** ** The interactive shell of main.cpp *)

(** A return of [processInput] is a return of 0, at the first line that is
    the word exit, after one prompt for each line read. *)
Lemma processInput_inv (fuel : nat) (lines : nat -> string) (c c' : console) (r : Z) :
  processInput fuel lines c = Some (r, c') ->
  r = 0 /\
  exists k,
    lines (reads c + k)%nat = "exit"%string /\
    (forall j, (j < k)%nat -> lines (reads c + j)%nat <> "exit"%string) /\
    c' = {| reads := reads c + S k; cout := cout c ++ repeat ":>"%string (S k) |}.
Proof.
  revert c. induction fuel as [|fuel IH]; intros c; [discriminate|].
  cbn [processInput getline put reads cout].
  destruct (String.eqb_spec (lines (reads c)) "exit") as [E | N].
  - intros [= <- <-]. split; [reflexivity|]. exists 0%nat.
    rewrite Nat.add_0_r. repeat split; [assumption | lia |].
    now rewrite Nat.add_1_r.
  - intros Hrun. destruct (IH _ Hrun) as (-> & k & Hk & Hbefore & ->).
    cbn [reads cout] in *. split; [reflexivity|]. exists (S k).
    rewrite Nat.add_succ_r. repeat split.
    + exact Hk.
    + intros [|j] Hj; [now rewrite Nat.add_0_r|].
      rewrite Nat.add_succ_r. apply Hbefore. lia.
    + f_equal; [lia | now rewrite <- app_assoc].
Qed.

(** X12. [processInput] returns 0 at the first line that is the word
    exit: the earlier lines are skipped, one prompt has been written for each
    line read, and the lines after it are left unread. *)
Theorem processInput_returns_at_exit
    (lines : nat -> string) (k fuel : nat) (c : console) :
  (forall j, (j < k)%nat -> lines (reads c + j)%nat <> "exit"%string) ->
  lines (reads c + k)%nat = "exit"%string ->
  (k < fuel)%nat ->
  processInput fuel lines c
  = Some (0, {| reads := reads c + S k; cout := cout c ++ repeat ":>"%string (S k) |}).
Proof.
  revert fuel c. induction k as [|k IH]; intros fuel c Hbefore Hk Hfuel;
    (destruct fuel as [|fuel]; [lia|]);
    cbn [processInput getline put reads cout].
  - rewrite Nat.add_0_r in Hk. rewrite Hk, String.eqb_refl.
    now rewrite Nat.add_1_r.
  - destruct (String.eqb_spec (lines (reads c)) "exit") as [E | _].
    + exfalso. apply (Hbefore 0%nat); [lia | now rewrite Nat.add_0_r].
    + rewrite IH; cbn [reads cout].
      * rewrite <- app_assoc. cbn [app repeat].
        do 3 f_equal. lia.
      * intros j Hj.
        replace (S (reads c) + j)%nat with (reads c + S j)%nat by lia.
        apply Hbefore. lia.
      * now replace (S (reads c) + k)%nat with (reads c + S k)%nat by lia.
      * lia.
Qed.

(** X13. When no line is the word exit, also once the input has ended,
    [processInput] does not return: every amount of fuel is exhausted. *)
Theorem processInput_loops_without_exit
    (lines : nat -> string) (fuel : nat) (c : console) :
  (forall j, lines (reads c + j)%nat <> "exit"%string) ->
  processInput fuel lines c = None.
Proof.
  revert c. induction fuel as [|fuel IH]; intros c Hnever; [reflexivity|].
  cbn [processInput getline put reads cout].
  destruct (String.eqb_spec (lines (reads c)) "exit") as [E | _].
  - exfalso. apply (Hnever 0%nat). now rewrite Nat.add_0_r.
  - apply IH. cbn [reads]. intros j.
    replace (S (reads c) + j)%nat with (reads c + S j)%nat by lia. apply Hnever.
Qed.

(** X14. [startInteractiveShell] never returns to its caller: when it
    ends, it ends the process with status 0, having written the two banner
    lines and then one prompt for each line up to the word exit. *)
Theorem startInteractiveShell_exits
    (fuel : nat) (lines : nat -> string) (c c' : console) (fin : finish) :
  startInteractiveShell fuel lines c = Some (fin, c') ->
  fin = Exited 0 /\
  exists k,
    lines (reads c + k)%nat = "exit"%string /\
    reads c' = (reads c + S k)%nat /\
    cout c'
    = cout c
      ++ [String.append "Dharma interpretor (v0.1 alpha)" newline;
          String.append "by Fluturel Adrian, 2018" newline]
      ++ repeat ":>"%string (S k).
Proof.
  unfold startInteractiveShell.
  destruct (processInput fuel lines _) as [[r c3]|] eqn:Hrun; [|discriminate].
  destruct (processInput_inv _ _ _ _ _ Hrun) as (-> & k & Hk & _ & ->).
  cbn [put reads cout] in *. intros [= <- <-]. split; [reflexivity|].
  exists k. repeat split; [exact Hk|]. cbn [cout].
  now rewrite <- !app_assoc.
Qed.

(** ** Instances

    The theorems above at class constants just above the character range,
    [DIGIT] 257 and [EoF] 256, and on concrete inputs. *)

(** The lexer on the input (2+3): five tokens, then end of input. *)
Example lex_tokens_2_plus_3 :
  lex_tokens 257 256 6 {| token := mkToken 0 0; stdin := list_ascii_of_string "(2+3)" |}
  = [ mkToken (chr "(") (chr "("); mkToken 257 (chr "2"); mkToken (chr "+") (chr "+");
      mkToken 257 (chr "3"); mkToken (chr ")") (chr ")"); mkToken 256 (chr "#") ].
Proof.
  reflexivity.
Qed.

(** A single digit is parsed as the spec has it. *)
Example parseExpression_on_5 :
  parseExpression 257 256 1 (lexer_on 257 256 (mkToken 0 0) "5")
  = (Matched (Digit 5), {| token := mkToken 256 (chr "#"); stdin := [] |}).
Proof.
  reflexivity.
Qed.

(** [parseOperator] on a star, and on a digit. *)
Example parseOperator_on_star :
  parseOperator 257 256 (lexer_on 257 256 (mkToken 0 0) "*4")
  = (Matched (chr "*"), {| token := mkToken 257 (chr "4"); stdin := [] |}).
Proof.
  reflexivity.
Qed.

Example parseOperator_on_digit :
  parseOperator 257 256 (lexer_on 257 256 (mkToken 0 0) "4)")
  = (NoMatch, lexer_on 257 256 (mkToken 0 0) "4)").
Proof.
  reflexivity.
Qed.

(** C6 at a space, a tab and a newline followed by the digit 7. *)
Lemma getNextToken_skips_then_classifies_witness :
  getNextToken 257 256
    {| token := mkToken 0 0;
       stdin := [" "; "009"; "010"]%char ++ list_ascii_of_string "7+" |}
  = {| token := mkToken 257 (chr "7"); stdin := list_ascii_of_string "+" |}.
Proof.
  refine (proj1 (proj2 (getNextToken_skips_then_classifies 257 256 (mkToken 0 0)
            [" "; "009"; "010"]%char (list_ascii_of_string "7+") _)
            "7"%char (list_ascii_of_string "+") eq_refl _) _).
  - constructor; [now left|].
    constructor; [right; now left|].
    constructor; [right; now right|]. constructor.
  - intros [H | [H | H]]; discriminate H.
  - vm_compute. split; discriminate.
Defined.

(** C10 on the input of one space: the first call already stores [EoF]. *)
Lemma EoF_absorbing_witness :
  token (Nat.iter 3 (getNextToken 257 256) (lexer_on 257 256 (mkToken 0 0) " "))
  = mkToken 256 (chr "#").
Proof.
  refine (proj1 (EoF_absorbing 257 256
            {| token := mkToken 0 0; stdin := list_ascii_of_string " " |} 3 _ _ _)).
  - lia.
  - lia.
  - reflexivity.
Defined.

(** C2 with a plus sign as current token. *)
Lemma parseExpression_always_matches_witness :
  returned (fst (parseExpression 257 256 1 (lexer_on 257 256 (mkToken 0 0) "+")))
  = Some 1.
Proof.
  refine (proj1 (proj2 (parseExpression_always_matches 257 256
            (lexer_on 257 256 (mkToken 0 0) "+") _)) 0%nat).
  lia.
Defined.

(** C1 with the opening parenthesis of (2+3) as current token. *)
Lemma parseExpression_digit_branch_on_paren_witness :
  parseExpression 257 256 1
    {| token := mkToken (chr "(") (chr "("); stdin := list_ascii_of_string "2+3)" |}
  = (Matched (Digit (-8)),
     {| token := mkToken 257 (chr "2"); stdin := list_ascii_of_string "+3)" |}).
Proof.
  refine (proj2 (parseExpression_digit_branch_on_paren 257 256 0
            (list_ascii_of_string "2+3)") _)).
  lia.
Defined.

(** C3 on the input (2+3). *)
Lemma parseExpression_on_2_plus_3_witness :
  parseExpression 257 256 1 (lexer_on 257 256 (mkToken 0 0) "(2+3)")
  = (Matched (Digit (-8)),
     {| token := mkToken 257 (chr "2"); stdin := list_ascii_of_string "+3)" |}).
Proof.
  refine (proj2 (parseExpression_on_2_plus_3 257 256 0 (mkToken 0 0)) _).
  lia.
Defined.

(** C4 on the empty input. *)
Lemma parseExpression_on_empty_input_witness :
  returned (fst (parseExpression 257 256 1 (lexer_on 257 256 (mkToken 0 0) "")))
  = Some 1.
Proof.
  refine (proj2 (proj2 (parseExpression_on_empty_input 257 256 0 (mkToken 0 0) _))).
  lia.
Defined.

(** C5 on the input (3+) with its second operand missing. *)
Lemma parseExpression_no_fatal_error_witness :
  fst (parseExpression 257 256 1 (lexer_on 257 256 (mkToken 0 0) "(3+)"))
  = Matched (Digit (-8)).
Proof.
  refine (proj1 (proj2 (parseExpression_no_fatal_error 257 256 0 (mkToken 0 0)) _)).
  lia.
Defined.

(** C8 on the input (2+3). *)
Lemma parseExpression_digit_out_of_range_witness :
  exists e s',
    parseExpression 257 256 1 (lexer_on 257 256 (mkToken 0 0) "(2+3)")
    = (Matched e, s') /\
    ~ digits_in_range e.
Proof.
  refine (parseExpression_digit_out_of_range 257 256 0 (mkToken 0 0) _).
  lia.
Defined.

(** X2 on the input (2+3) with and without blanks. *)
Lemma lex_tokens_whitespace_insensitive_witness :
  lex_tokens 257 256 6
    {| token := mkToken 0 0; stdin := list_ascii_of_string "( 2 + 3 )" |}
  = lex_tokens 257 256 6
      {| token := mkToken 1 1; stdin := list_ascii_of_string "(2+3)" |}.
Proof.
  apply (lex_tokens_whitespace_insensitive 257 256). reflexivity.
Defined.

(** X5 on an input that starts with the digit 7. *)
Lemma getNextToken_class_kind_witness :
  classType (token (getNextToken 257 256
    {| token := mkToken 0 0; stdin := list_ascii_of_string " 7+" |})) = 257
  <-> chr "0"
      <= repr (token (getNextToken 257 256
           {| token := mkToken 0 0; stdin := list_ascii_of_string " 7+" |}))
      <= chr "9".
Proof.
  refine (proj2 (getNextToken_class_kind 257 256
            {| token := mkToken 0 0; stdin := list_ascii_of_string " 7+" |} _ _ _));
    lia.
Defined.

(** X6 on an input with two significant characters. *)
Lemma getNextToken_exhausts_witness :
  Nat.iter 4 (getNextToken 257 256)
    {| token := mkToken 0 0; stdin := list_ascii_of_string "1 2 " |}
  = {| token := eof_token 256; stdin := [] |}.
Proof.
  apply (getNextToken_exhausts 257 256 3). vm_compute. lia.
Defined.

(** X7 on a blank, the digit 7 and a plus sign. *)
Lemma parseExpression_digit_value_witness :
  parseExpression 257 256 1
    (getNextToken 257 256
       {| token := mkToken 0 0; stdin := [" "%char] ++ "7"%char :: ["+"%char] |})
  = (Matched (Digit (chr "7" - chr "0")),
     getNextToken 257 256 {| token := mkToken 0 0; stdin := ["+"%char] |}).
Proof.
  refine (proj1 (parseExpression_digit_value 257 256 0 (mkToken 0 0)
            [" "%char] "7"%char ["+"%char] _ _ _)).
  - lia.
  - constructor; [now left | constructor].
  - vm_compute. split; discriminate.
Defined.

(** X8 on the digit 7. *)
Lemma parseExpression_in_range_iff_witness :
  digits_in_range (Digit 7)
  <-> chr "0" <= repr (token (lexer_on 257 256 (mkToken 0 0) "7")) <= chr "9".
Proof.
  refine (parseExpression_in_range_iff 257 256 0
            (lexer_on 257 256 (mkToken 0 0) "7")
            {| token := eof_token 256; stdin := [] |} (Digit 7) _ _).
  - lia.
  - reflexivity.
Defined.

(** X10 on the digit 7. *)
Lemma parseExpression_frame_witness :
  Digit 7 = Digit (repr (token (lexer_on 257 256 (mkToken 0 0) "7")) - chr "0") /\
  {| token := eof_token 256; stdin := [] |}
  = getNextToken 257 256 (lexer_on 257 256 (mkToken 0 0) "7") /\
  257 <> 0.
Proof.
  refine (parseExpression_frame 257 256 1
            (lexer_on 257 256 (mkToken 0 0) "7")
            {| token := eof_token 256; stdin := [] |} (Matched (Digit 7)) _).
  reflexivity.
Defined.

(** X11 on a blank, a star and the digit 4. *)
Lemma parseOperator_on_input_witness :
  fst (parseOperator 257 256
         (getNextToken 257 256
            {| token := mkToken 0 0; stdin := list_ascii_of_string " *4" |}))
  = Matched (chr "*")
  <-> exists c sig,
        significant (list_ascii_of_string " *4") = c :: sig /\
        (c = "+"%char \/ c = "*"%char) /\ chr "*" = chr c.
Proof.
  refine (parseOperator_on_input 257 256 (mkToken 0 0)
            (list_ascii_of_string " *4") _ _ (chr "*")); lia.
Defined.

(** X12 on four lines, the third of which is the word exit. *)
Lemma processInput_returns_at_exit_witness :
  processInput 5 (fun i => nth i ["1"; "(2+3)"; "exit"; "5"]%string ""%string)
    {| reads := 0; cout := [] |}
  = Some (0, {| reads := 3; cout := [":>"; ":>"; ":>"]%string |}).
Proof.
  refine (processInput_returns_at_exit
            (fun i => nth i ["1"; "(2+3)"; "exit"; "5"]%string ""%string)
            2 5 {| reads := 0; cout := [] |} _ _ _).
  - intros [|[|j]] Hj; [discriminate | discriminate | lia].
  - reflexivity.
  - lia.
Defined.

(** X13 on an input that has ended: every read leaves the empty string. *)
Lemma processInput_loops_without_exit_witness :
  processInput 10 (fun _ => ""%string) {| reads := 0; cout := [] |} = None.
Proof.
  refine (processInput_loops_without_exit (fun _ => ""%string) 10
            {| reads := 0; cout := [] |} _).
  intros j. discriminate.
Defined.

(** X14 on the same four lines as X12. *)
Lemma startInteractiveShell_exits_witness :
  let lines := fun i => nth i ["1"; "(2+3)"; "exit"; "5"]%string ""%string in
  let c' := {| reads := 3;
               cout := [String.append "Dharma interpretor (v0.1 alpha)" newline;
                        String.append "by Fluturel Adrian, 2018" newline;
                        ":>"; ":>"; ":>"]%string |} in
  startInteractiveShell 5 lines {| reads := 0; cout := [] |} = Some (Exited 0, c') /\
  exists k,
    lines (0 + k)%nat = "exit"%string /\
    reads c' = (0 + S k)%nat /\
    cout c'
    = []
      ++ [String.append "Dharma interpretor (v0.1 alpha)" newline;
          String.append "by Fluturel Adrian, 2018" newline]
      ++ repeat ":>"%string (S k).
Proof.
  intros lines c'. split; [reflexivity|].
  exact (proj2 (startInteractiveShell_exits 5 lines {| reads := 0; cout := [] |}
                  c' (Exited 0) eq_refl)).
Defined.
